(** * Decoding of TZX tape blocks and DSK track records

    A shallow embedding of the block readers of [tzxit]: the TZX
    [CallSequence] and [CustomInfo] blocks, and the DSK
    [TrackInformation] record with its sector descriptor table and sector
    data.  A Go method with a pointer receiver that reads from a byte reader
    becomes a function of the receiver and of the remaining input, returning
    the updated receiver, the remaining input and an error (if any).  *)

From Stdlib Require Import Init.Byte Ascii String List ZArith Lia DecimalString.
Import ListNotations.
Open Scope Z_scope.

(** ** Errors and the byte reader *)

(** Errors as the Go code produces them: the reader's own errors and the
    wrappers of [github.com/pkg/errors]. *)
Inductive error : Type :=
| EOF                                          (* fewer bytes remain than requested *)
| ErrNegativeCount                             (* discard of a negative count *)
| Wrap (msg : string) (cause : error)          (* errors.Wrap(err, msg) *)
| Wrapf (format : string) (arg : Z) (cause : error). (* errors.Wrapf(err, format, arg) *)

Inductive result (A : Type) : Type :=
| Ok (a : A)
| Err (e : error).
Arguments Ok {A} a.
Arguments Err {A} e.

(** A read from the sequential byte reader: the remaining input in, the
    value (or an error) and the remaining input out. *)
Definition Reader (A : Type) : Type := list byte -> result A * list byte.

Definition rret {A} (a : A) : Reader A := fun inp => (Ok a, inp).

Definition rbind {A B} (m : Reader A) (k : A -> Reader B) : Reader B :=
  fun inp =>
    match m inp with
    | (Ok a, inp') => k a inp'
    | (Err e, inp') => (Err e, inp')
    end.

Notation "x <-r m ;; k" := (rbind m (fun x => k))
  (at level 61, m at next level, right associativity).

(** Unsigned little-endian value of a byte string. *)
Definition byte_val (b : byte) : Z := Z.of_N (Byte.to_N b).

Fixpoint le_uint (bs : list byte) : Z :=
  match bs with
  | [] => 0
  | b :: bs' => byte_val b + 256 * le_uint bs'
  end.

(** Modelled from the spec: [storage.Reader] and [tape.File] (the byte
    reader, an external collaborator not in the repository).  The spec
    gives it fixed-size reads, little-endian integer reads and discarding
    N bytes, and says it "reports an error when fewer bytes remain than
    requested"; a short read consumes what is left. *)
Definition ReadNextBytes (n : nat) : Reader (list byte) :=
  fun inp =>
    if Nat.leb n (length inp) then (Ok (firstn n inp), skipn n inp)
    else (Err EOF, []).

Definition ReadBytes (n : Z) : Reader (list byte) := ReadNextBytes (Z.to_nat n).

Definition ReadByte : Reader byte :=
  fun inp =>
    match inp with
    | b :: inp' => (Ok b, inp')
    | [] => (Err EOF, [])
    end.

(** [ReadShort]: a 16-bit little-endian word, returned as Go's [uint16]. *)
Definition ReadShort : Reader Z :=
  bs <-r ReadNextBytes 2 ;; rret (le_uint bs).

(** [ReadLong]: a 32-bit little-endian word, returned as Go's [uint32]. *)
Definition ReadLong : Reader Z :=
  bs <-r ReadNextBytes 4 ;; rret (le_uint bs).

(** Modelled from the spec: [storage.Reader.Discard] skips [n] bytes and
    reports an error when fewer remain; a negative count is refused, the
    case §4.3 of the spec calls a malformed track. *)
Definition Discard (n : Z) : Reader Z :=
  fun inp =>
    if n <? 0 then (Err ErrNegativeCount, inp)
    else if Z.of_nat (length inp) <? n then (Err EOF, [])
    else (Ok n, skipn (Z.to_nat n) inp).

(** ** CallSequence (block 0x26), src/unnamed/part_000 *)

Record CallSequence : Type := mkCallSequence {
  Count : Z;          (* N WORD, uint16 *)
  Blocks : list Z     (* WORD[N], []uint16 *)
}.

(** [for i := 0; i < int(c.Count); i++ { c.Blocks = append(c.Blocks, reader.ReadShort()) }] *)
Fixpoint CallSequence_readBlocks (n : nat) (c : CallSequence) : Reader CallSequence :=
  match n with
  | O => rret c
  | S n' =>
      w <-r ReadShort ;;
      CallSequence_readBlocks n' (mkCallSequence (Count c) (Blocks c ++ [w]))
  end.

(** [func (c *CallSequence) Read(reader *storage.Reader)] *)
Definition CallSequence_Read (c : CallSequence) : Reader CallSequence :=
  n <-r ReadShort ;;
  let c := mkCallSequence n (Blocks c) in
  CallSequence_readBlocks (Z.to_nat (Count c)) c.

Definition zero_CallSequence : CallSequence := mkCallSequence 0 [].

(** The two bytes of a little-endian 16-bit word. *)
Definition word16 (w : byte * byte) : Z := byte_val (fst w) + 256 * byte_val (snd w).

Definition word_bytes (w : byte * byte) : list byte := [fst w; snd w].

(** ** CustomInfo (block 0x35), src/tzx/block_custom_info.go *)

Record CustomInfo : Type := mkCustomInfo {
  Identification : list byte;   (* CHAR[10] *)
  Length : Z;                   (* L DWORD, uint32 *)
  Info : list byte              (* BYTE[L] *)
}.

(** [func (c *CustomInfo) Read(file *tape.File)]: the ten identification
    bytes are copied over [c.Identification], the length is read, and the
    info bytes are appended to [c.Info] one by one. *)
Definition CustomInfo_Read (c : CustomInfo) : Reader CustomInfo :=
  ident <-r ReadBytes 10 ;;
  let c := mkCustomInfo ident (Length c) (Info c) in
  l <-r ReadLong ;;
  let c := mkCustomInfo (Identification c) l (Info c) in
  info <-r ReadBytes (Length c) ;;
  rret (mkCustomInfo (Identification c) (Length c) (Info c ++ info)).

Definition zero_CustomInfo : CustomInfo := mkCustomInfo (repeat x00 10) 0 [].

(** ** CallSequence name and text form, src/unnamed/part_000 *)

(** [func (c CallSequence) Name() string] *)
Definition CallSequence_Name : string := "Call Sequence".

(** Go's [fmt.Sprintf("%d", b)] of a [uint16]: its decimal digits. *)
Definition format_d (w : Z) : string :=
  DecimalString.NilZero.string_of_uint (N.to_uint (Z.to_N w)).

Definition newline : string := String "010"%char EmptyString.

(** [func (c CallSequence) ToString() string]: the name on the first line,
    then [" - %d"] for each offset, each line ending in a newline. *)
Definition CallSequence_ToString (c : CallSequence) : string :=
  fold_left (fun str b => (str ++ " - " ++ format_d b ++ newline)%string)
    (Blocks c) (CallSequence_Name ++ newline)%string.

(** Number of newline characters of a string. *)
Fixpoint count_newlines (s : string) : nat :=
  match s with
  | EmptyString => 0
  | String ch s' => ((if Ascii.eqb ch "010"%char then 1 else 0) + count_newlines s')%nat
  end.

(** ** GlueBlock (block 0x5A), src/tzx/block_glue.go *)

Record GlueBlock : Type := mkGlueBlock {
  Value : list byte     (* [9]byte *)
}.

(** [func (g *GlueBlock) Read(file *tape.File)]: the bytes read are stored
    at [g.Value[0]], [g.Value[1]], ... *)
Definition GlueBlock_Read (g : GlueBlock) : Reader GlueBlock :=
  bs <-r ReadBytes 9 ;;
  rret (mkGlueBlock (bs ++ skipn (length bs) (Value g))).

(** ** CustomInfo name and text form, src/tzx/block_custom_info.go *)

(** [func (c CustomInfo) Name() string] *)
Definition CustomInfo_Name : string := "Custom Info".

Fixpoint spaces (n : nat) : string :=
  match n with
  | O => EmptyString
  | S n' => String " "%char (spaces n')
  end.

(** Go's [%-19s]: the string left-justified and padded with spaces to
    [w] characters (the block names are ASCII, one character per byte). *)
Definition pad_right (w : nat) (s : string) : string :=
  (s ++ spaces (w - String.length s)%nat)%string.

(** Go's [%s] of a byte array or byte slice: the bytes themselves. *)
Definition format_s (bs : list byte) : string := string_of_list_byte bs.

(** [func (c CustomInfo) ToString() string]:
    [fmt.Sprintf("> %-19s : %s - %s", c.Name(), c.Identification, c.Info)]. *)
Definition CustomInfo_ToString (c : CustomInfo) : string :=
  ("> " ++ pad_right 19 CustomInfo_Name ++ " : " ++ format_s (Identification c)
   ++ " - " ++ format_s (Info c))%string.

(** ** TrackInformation (DSK track block), src/tzx/block_glue.go *)

(** Modelled from the spec: [SectorInformation], the fixed-size sector
    descriptor of the dsk package (not in the repository), with the fields
    of the DSK sector information list. *)
Record SectorInformation : Type := mkSectorInformation {
  SI_Track : byte;
  SI_Side : byte;
  SectorId : byte;
  SI_SectorSize : byte;
  FDCStatus1 : byte;
  FDCStatus2 : byte;
  SI_Unused : list byte
}.

Definition trackInformationBlockSize : Z := 24.
Definition sectorDataStartAddress : Z := 256.  (* 0x0100 *)

(** Modelled from the spec: [sectorInformationBlockSize], the byte size of
    one sector descriptor (declared in the dsk package, not in the
    repository); a DSK sector information entry is 8 bytes. *)
Definition sectorInformationBlockSize : Z := 8.

Record TrackInformation : Type := mkTrackInformation {
  Identifier : list byte;           (* [13]byte *)
  Unused1 : list byte;              (* [3]byte *)
  Track : byte;
  Side : byte;
  Unused2 : list byte;              (* [2]byte *)
  SectorSize : byte;
  SectorsCount : byte;
  GapLength : byte;
  FillerByte : byte;
  Sectors : list SectorInformation;
  Data : list (list byte)
}.

Definition zero_TrackInformation : TrackInformation :=
  mkTrackInformation (repeat x00 13) (repeat x00 3) x00 x00 (repeat x00 2)
    x00 x00 x00 x00 [] [].

(** Field assignments [t.F = v]. *)
Definition set_Identifier (v : list byte) (t : TrackInformation) : TrackInformation :=
  let (_, a, b, c, d, e, f, g, h, i, j) := t in mkTrackInformation v a b c d e f g h i j.
Definition set_Unused1 (v : list byte) (t : TrackInformation) : TrackInformation :=
  let (a, _, b, c, d, e, f, g, h, i, j) := t in mkTrackInformation a v b c d e f g h i j.
Definition set_Track (v : byte) (t : TrackInformation) : TrackInformation :=
  let (a, b, _, c, d, e, f, g, h, i, j) := t in mkTrackInformation a b v c d e f g h i j.
Definition set_Side (v : byte) (t : TrackInformation) : TrackInformation :=
  let (a, b, c, _, d, e, f, g, h, i, j) := t in mkTrackInformation a b c v d e f g h i j.
Definition set_Unused2 (v : list byte) (t : TrackInformation) : TrackInformation :=
  let (a, b, c, d, _, e, f, g, h, i, j) := t in mkTrackInformation a b c d v e f g h i j.
Definition set_SectorSize (v : byte) (t : TrackInformation) : TrackInformation :=
  let (a, b, c, d, e, _, f, g, h, i, j) := t in mkTrackInformation a b c d e v f g h i j.
Definition set_SectorsCount (v : byte) (t : TrackInformation) : TrackInformation :=
  let (a, b, c, d, e, f, _, g, h, i, j) := t in mkTrackInformation a b c d e f v g h i j.
Definition set_GapLength (v : byte) (t : TrackInformation) : TrackInformation :=
  let (a, b, c, d, e, f, g, _, h, i, j) := t in mkTrackInformation a b c d e f g v h i j.
Definition set_FillerByte (v : byte) (t : TrackInformation) : TrackInformation :=
  let (a, b, c, d, e, f, g, h, _, i, j) := t in mkTrackInformation a b c d e f g h v i j.
Definition set_Sectors (v : list SectorInformation) (t : TrackInformation) : TrackInformation :=
  let (a, b, c, d, e, f, g, h, i, _, j) := t in mkTrackInformation a b c d e f g h i v j.
Definition set_Data (v : list (list byte)) (t : TrackInformation) : TrackInformation :=
  let (a, b, c, d, e, f, g, h, i, j, _) := t in mkTrackInformation a b c d e f g h i j v.

(** A method with a [*TrackInformation] receiver: the receiver and the
    remaining input in; the returned error, the receiver as the method
    leaves it (also on error, since Go mutates it in place) and the
    remaining input out. *)
Definition Method (A : Type) : Type :=
  TrackInformation -> list byte -> result A * TrackInformation * list byte.

Definition mret {A} (a : A) : Method A := fun t inp => (Ok a, t, inp).

Definition mbind {A B} (m : Method A) (k : A -> Method B) : Method B :=
  fun t inp =>
    match m t inp with
    | (Ok a, t', inp') => k a t' inp'
    | (Err e, t', inp') => (Err e, t', inp')
    end.

Notation "x <- m ;; k" := (mbind m (fun x => k))
  (at level 61, m at next level, right associativity).

Definition read {A} (r : Reader A) : Method A :=
  fun t inp => let (res, inp') := r inp in (res, t, inp').

Definition assign (f : TrackInformation -> TrackInformation) : Method unit :=
  fun t inp => (Ok tt, f t, inp).

(** Lines 88-96 of [TrackInformation.Read]: the 24-byte header, field by
    field. *)
Definition TrackInformation_readHeader : Method unit :=
  ident <- read (ReadNextBytes 13) ;; _ <- assign (set_Identifier ident) ;;
  u1 <- read (ReadNextBytes 3) ;; _ <- assign (set_Unused1 u1) ;;
  tr <- read ReadByte ;; _ <- assign (set_Track tr) ;;
  sd <- read ReadByte ;; _ <- assign (set_Side sd) ;;
  u2 <- read (ReadNextBytes 2) ;; _ <- assign (set_Unused2 u2) ;;
  sz <- read ReadByte ;; _ <- assign (set_SectorSize sz) ;;
  sc <- read ReadByte ;; _ <- assign (set_SectorsCount sc) ;;
  gl <- read ReadByte ;; _ <- assign (set_GapLength gl) ;;
  fb <- read ReadByte ;; assign (set_FillerByte fb).

(** [readSectorInformationBlocks]: [for i := 0; i < int(t.SectorsCount); i++]
    read one descriptor with [sector.Read], append it to [t.Sectors]. *)
Fixpoint readSectorInformationBlocks_loop (secRead : Reader SectorInformation)
    (i : Z) (n : nat) : Method unit :=
  match n with
  | O => mret tt
  | S n' => fun t inp =>
      match secRead inp with
      | (Err e, inp') => (Err (Wrapf "error reading sector #%d" (i + 1) e), t, inp')
      | (Ok sector, inp') =>
          readSectorInformationBlocks_loop secRead (i + 1) n'
            (set_Sectors (Sectors t ++ [sector]) t) inp'
      end
  end.

Definition readSectorInformationBlocks (secRead : Reader SectorInformation) : Method unit :=
  fun t inp =>
    readSectorInformationBlocks_loop secRead 0 (Byte.to_nat (SectorsCount t)) t inp.

(** [setBufferToDataAddress] (value receiver): discard up to offset 0x0100. *)
Definition setBufferToDataAddress (t : TrackInformation) : Reader unit :=
  fun inp =>
    let blockSize := Z.of_N (Byte.to_N (SectorsCount t)) * sectorInformationBlockSize in
    let usedBytes := trackInformationBlockSize + blockSize in
    match Discard (sectorDataStartAddress - usedBytes) inp with
    | (Err e, inp') => (Err (Wrap "error moving reader position to 0x0100" e), inp')
    | (Ok _, inp') => (Ok tt, inp')
    end.

(** [readSectorData]: [for i, s := range t.Sectors] read the payload with
    [s.DataRead] and append it to [t.Data]; the range is over [t.Sectors]
    as it is when the loop starts. *)
Fixpoint readSectorData_loop (dataRead : SectorInformation -> Reader (list byte))
    (i : Z) (ss : list SectorInformation) : Method unit :=
  match ss with
  | [] => mret tt
  | s :: ss' => fun t inp =>
      match dataRead s inp with
      | (Err e, inp') => (Err (Wrapf "error reading sector #%d" i e), t, inp')
      | (Ok data, inp') =>
          readSectorData_loop dataRead (i + 1) ss' (set_Data (Data t ++ [data]) t) inp'
      end
  end.

Definition readSectorData (dataRead : SectorInformation -> Reader (list byte)) : Method unit :=
  fun t inp => readSectorData_loop dataRead 0 (Sectors t) t inp.

(** [func (t *TrackInformation) Read(reader *storage.Reader) error], for a
    descriptor reader [secRead] ([SectorInformation.Read]) and a payload
    reader [dataRead] ([SectorInformation.DataRead]). *)
Definition TrackInformation_Read (secRead : Reader SectorInformation)
    (dataRead : SectorInformation -> Reader (list byte)) : Method unit :=
  _ <- TrackInformation_readHeader ;;
  _ <- readSectorInformationBlocks secRead ;;
  _ <- (fun t inp => read (setBufferToDataAddress t) t inp) ;;
  readSectorData dataRead.

(** Modelled from the spec: [SectorInformation.Read], reading one 8-byte
    descriptor (not in the repository). *)
Definition SectorInformation_Read : Reader SectorInformation :=
  bs <-r ReadNextBytes 8 ;;
  rret (mkSectorInformation (nth 0 bs x00) (nth 1 bs x00) (nth 2 bs x00)
          (nth 3 bs x00) (nth 4 bs x00) (nth 5 bs x00) (firstn 2 (skipn 6 bs))).

(** Modelled from the spec: [SectorInformation.SectorByteSize] and
    [SectorInformation.DataRead] (not in the repository): a payload whose
    byte length is derived from the sector-size code, 128 << code. *)
Definition SectorByteSize (s : SectorInformation) : Z :=
  Z.shiftl 128 (byte_val (SI_SectorSize s)).

Definition SectorInformation_DataRead (s : SectorInformation) : Reader (list byte) :=
  ReadBytes (SectorByteSize s).

(** ** Specification-side vocabulary *)

(** [read_each rd xs inp]: [rd x1], [rd x2], ... applied in turn, each at
    the cursor the previous one left; the values read and the final cursor,
    or [None] when one of the reads fails. *)
Fixpoint read_each {A B : Type} (rd : A -> Reader B) (xs : list A) (inp : list byte)
  : option (list B * list byte) :=
  match xs with
  | [] => Some ([], inp)
  | x :: xs' =>
      match rd x inp with
      | (Ok y, inp') =>
          match read_each rd xs' inp' with
          | Some (ys, out) => Some (y :: ys, out)
          | None => None
          end
      | (Err _, _) => None
      end
  end.

(** [read_times rd n inp]: [rd] applied [n] times in a row. *)
Fixpoint read_times {B : Type} (rd : Reader B) (n : nat) (inp : list byte)
  : option (list B * list byte) :=
  match n with
  | O => Some ([], inp)
  | S n' =>
      match rd inp with
      | (Ok y, inp') =>
          match read_times rd n' inp' with
          | Some (ys, out) => Some (y :: ys, out)
          | None => None
          end
      | (Err _, _) => None
      end
  end.

(** Bytes [a .. a+n-1] of a header. *)
Definition slice (a n : nat) (l : list byte) : list byte := firstn n (skipn a l).

(** The receiver with the fields of a 24-byte track header assigned in
    the declared layout. *)
Definition header_fields (hdr : list byte) (t : TrackInformation) : TrackInformation :=
  mkTrackInformation (slice 0 13 hdr) (slice 13 3 hdr) (nth 16 hdr x00) (nth 17 hdr x00)
    (slice 18 2 hdr) (nth 20 hdr x00) (nth 21 hdr x00) (nth 22 hdr x00) (nth 23 hdr x00)
    (Sectors t) (Data t).

(** What [TrackInformation.Read] does after the header. *)
Definition TrackInformation_afterHeader (secRead : Reader SectorInformation)
    (dataRead : SectorInformation -> Reader (list byte)) : Method unit :=
  _ <- readSectorInformationBlocks secRead ;;
  _ <- (fun t inp => read (setBufferToDataAddress t) t inp) ;;
  readSectorData dataRead.

(** Sample inputs for the concrete checks: a track header of zero bytes
    declaring [sc] sectors, followed by [len] zero bytes (descriptors of
    sector-size code 0, padding, 128-byte payloads). *)
Definition sample_track (sc : byte) (len : nat) : list byte :=
  repeat x00 21 ++ [sc] ++ repeat x00 len.

Definition zero_sector : SectorInformation :=
  mkSectorInformation x00 x00 x00 x00 x00 x00 [x00; x00].

(** ** Reader lemmas *)

Lemma ReadNextBytes_app (n : nat) (bs rest : list byte) :
  length bs = n -> ReadNextBytes n (bs ++ rest) = (Ok bs, rest).
Proof.
  intros <-. unfold ReadNextBytes.
  rewrite length_app, firstn_app, skipn_app, Nat.sub_diag, firstn_O, skipn_O,
    firstn_all, skipn_all.
  replace (Nat.leb (length bs) (length bs + length rest)) with true
    by (symmetry; apply Nat.leb_le; lia).
  now rewrite app_nil_r.
Qed.

Lemma ReadNextBytes_ok (n : nat) (inp bs inp' : list byte) :
  ReadNextBytes n inp = (Ok bs, inp') -> length bs = n /\ inp = bs ++ inp'.
Proof.
  unfold ReadNextBytes. destruct (Nat.leb n (length inp)) eqn:E; [|discriminate].
  intros H. inversion H; subst. apply Nat.leb_le in E.
  split; [rewrite length_firstn; lia | symmetry; apply firstn_skipn].
Qed.

Lemma byte_val_range (b : byte) : 0 <= byte_val b < 256.
Proof.
  unfold byte_val. pose proof (Byte.to_N_bounded b). lia.
Qed.

Lemma le_uint_nonneg (bs : list byte) : 0 <= le_uint bs.
Proof.
  induction bs as [|b bs IH]; cbn [le_uint]; [lia|]. pose proof (byte_val_range b). lia.
Qed.

Lemma ReadShort_app (l h : byte) (rest : list byte) :
  ReadShort ([l; h] ++ rest) = (Ok (word16 (l, h)), rest).
Proof.
  unfold ReadShort, rbind, rret. rewrite ReadNextBytes_app by reflexivity.
  f_equal. f_equal. unfold word16. cbn [le_uint fst snd]. lia.
Qed.

Lemma ReadShort_ok (inp inp' : list byte) (w : Z) :
  ReadShort inp = (Ok w, inp') -> 0 <= w < 65536.
Proof.
  unfold ReadShort, rbind, rret.
  destruct (ReadNextBytes 2 inp) as [[bs|e] r] eqn:E; [|discriminate].
  intros H. inversion H; subst. apply ReadNextBytes_ok in E as [Hl _].
  destruct bs as [|b0 [|b1 [|]]]; try discriminate. cbn [le_uint].
  pose proof (byte_val_range b0). pose proof (byte_val_range b1). lia.
Qed.

(** ** CallSequence lemmas *)

Lemma CallSequence_readBlocks_app (body : list (byte * byte)) (c : CallSequence)
    (rest : list byte) :
  CallSequence_readBlocks (length body) c (flat_map word_bytes body ++ rest)
  = (Ok (mkCallSequence (Count c) (Blocks c ++ map word16 body)), rest).
Proof.
  revert c. induction body as [|[l h] body IH]; intros c; cbn [length].
  - destruct c. cbn. now rewrite app_nil_r.
  - cbn [CallSequence_readBlocks flat_map]. unfold rbind at 1.
    rewrite <- app_assoc. unfold word_bytes at 1. cbn [fst snd]. rewrite ReadShort_app.
    rewrite IH. cbn. now rewrite <- app_assoc.
Qed.

Lemma CallSequence_readBlocks_ok (n : nat) (c c' : CallSequence) (inp rest : list byte) :
  CallSequence_readBlocks n c inp = (Ok c', rest) ->
  Count c' = Count c /\
  exists ws, Blocks c' = Blocks c ++ ws /\ length ws = n /\
             Forall (fun w => 0 <= w < 65536) ws.
Proof.
  revert c inp. induction n as [|n IH]; intros c inp H.
  - cbn in H. inversion H; subst. split; [reflexivity|]. exists [].
    rewrite app_nil_r. auto.
  - cbn [CallSequence_readBlocks] in H. unfold rbind in H.
    destruct (ReadShort inp) as [[w|e] r] eqn:E; [|discriminate].
    apply ReadShort_ok in E. apply IH in H as [Hc [ws [Hb [Hl Hf]]]].
    split; [exact Hc|]. exists (w :: ws). cbn in Hb. rewrite <- app_assoc in Hb.
    cbn. auto.
Qed.

(** ** CustomInfo lemmas *)

Lemma CustomInfo_Read_ok (c c' : CustomInfo) (inp rest : list byte) :
  CustomInfo_Read c inp = (Ok c', rest) ->
  exists ident lb info,
    inp = ident ++ lb ++ info ++ rest /\ length ident = 10%nat /\ length lb = 4%nat /\
    Length c' = le_uint lb /\ length info = Z.to_nat (le_uint lb) /\
    c' = mkCustomInfo ident (le_uint lb) (Info c ++ info).
Proof.
  unfold CustomInfo_Read, ReadLong, ReadBytes, rbind, rret.
  destruct (ReadNextBytes (Z.to_nat 10) inp) as [[ident|e] r1] eqn:E1; [|discriminate].
  destruct (ReadNextBytes 4 r1) as [[lb|e] r2] eqn:E2; [|discriminate].
  cbn [Length Identification Info].
  destruct (ReadNextBytes (Z.to_nat (le_uint lb)) r2) as [[info|e] r3] eqn:E3;
    [|discriminate].
  intros H. inversion H; subst.
  apply ReadNextBytes_ok in E1 as [H1 ->]. apply ReadNextBytes_ok in E2 as [H2 ->].
  apply ReadNextBytes_ok in E3 as [H3 ->].
  exists ident, lb, info. repeat split; auto.
Qed.

(** ** TrackInformation lemmas *)

Lemma mbind_ok {A B} (m : Method A) (k : A -> Method B) t inp b t' out :
  mbind m k t inp = (Ok b, t', out) ->
  exists a t1 inp1, m t inp = (Ok a, t1, inp1) /\ k a t1 inp1 = (Ok b, t', out).
Proof.
  unfold mbind. destruct (m t inp) as [[[a|e] t1] inp1]; [|discriminate].
  intros H. eauto.
Qed.

Lemma set_Sectors_fields (v : list SectorInformation) (t : TrackInformation) :
  Sectors (set_Sectors v t) = v /\ Data (set_Sectors v t) = Data t /\
  SectorsCount (set_Sectors v t) = SectorsCount t.
Proof. destruct t; cbn; auto. Qed.

Lemma set_Data_fields (v : list (list byte)) (t : TrackInformation) :
  Data (set_Data v t) = v /\ Sectors (set_Data v t) = Sectors t /\
  SectorsCount (set_Data v t) = SectorsCount t.
Proof. destruct t; cbn; auto. Qed.

Lemma set_Sectors_same (t : TrackInformation) : set_Sectors (Sectors t) t = t.
Proof. destruct t; reflexivity. Qed.

Lemma set_Sectors_twice (v w : list SectorInformation) (t : TrackInformation) :
  set_Sectors w (set_Sectors v t) = set_Sectors w t.
Proof. destruct t; reflexivity. Qed.

Lemma set_Data_same (t : TrackInformation) : set_Data (Data t) t = t.
Proof. destruct t; reflexivity. Qed.

Lemma set_Data_twice (v w : list (list byte)) (t : TrackInformation) :
  set_Data w (set_Data v t) = set_Data w t.
Proof. destruct t; reflexivity. Qed.

Lemma header_fields_fields (hdr : list byte) (t : TrackInformation) :
  Sectors (header_fields hdr t) = Sectors t /\ Data (header_fields hdr t) = Data t /\
  SectorsCount (header_fields hdr t) = nth 21 hdr x00.
Proof. repeat split. Qed.

(** Peel one element off a list whose length is known to be larger. *)
Ltac peel l := destruct l as [|? l]; [cbn in *; try lia; try discriminate|].

Lemma readHeader_app (t : TrackInformation) (hdr rest : list byte) :
  length hdr = 24%nat ->
  TrackInformation_readHeader t (hdr ++ rest) = (Ok tt, header_fields hdr t, rest).
Proof.
  intros H. do 24 peel hdr. destruct hdr; [|discriminate]. destruct t. reflexivity.
Qed.

Lemma readHeader_ok (t t' : TrackInformation) (inp out : list byte) (u : unit) :
  TrackInformation_readHeader t inp = (Ok u, t', out) ->
  exists hdr, length hdr = 24%nat /\ inp = hdr ++ out /\ t' = header_fields hdr t.
Proof.
  intros H. destruct (Nat.le_gt_cases 24 (length inp)) as [Hge|Hlt].
  - rewrite <- (firstn_skipn 24 inp) in H. rewrite readHeader_app in H
      by (rewrite length_firstn; lia).
    inversion H; subst. exists (firstn 24 inp). rewrite firstn_skipn.
    rewrite length_firstn. repeat split; lia.
  - exfalso. do 24 (destruct inp as [|? inp]; [destruct t; discriminate H|]).
    cbn in Hlt. lia.
Qed.

(** Close [(Err (Wrapf f a e), t, m) = (Err (Wrapf f b e), t, m)] when [a = b]
    is linear arithmetic. *)
Ltac same_wrapf_arg :=
  match goal with
  | |- (Err (Wrapf ?f ?a ?e), ?t, ?m) = (Err (Wrapf ?f ?b ?e), ?t, ?m) =>
      apply (f_equal (fun x => (Err (Wrapf f x e), t, m))); lia
  end.

Lemma read_times_length {B} (rd : Reader B) (n : nat) :
  forall inp ys out, read_times rd n inp = Some (ys, out) -> length ys = n.
Proof.
  induction n as [|n IH]; intros inp ys out H; cbn in H.
  - now inversion H.
  - destruct (rd inp) as [[y|e] inp1]; [|discriminate].
    destruct (read_times rd n inp1) as [[ys' o]|] eqn:E; [|discriminate].
    inversion H; subst. cbn. f_equal. eauto.
Qed.

Lemma read_each_length {A B} (rd : A -> Reader B) (xs : list A) :
  forall inp ys out, read_each rd xs inp = Some (ys, out) -> length ys = length xs.
Proof.
  induction xs as [|x xs IH]; intros inp ys out H; cbn in H.
  - now inversion H.
  - destruct (rd x inp) as [[y|e] inp1]; [|discriminate].
    destruct (read_each rd xs inp1) as [[ys' o]|] eqn:E; [|discriminate].
    inversion H; subst. cbn. f_equal. eauto.
Qed.

Lemma readSectorInformationBlocks_loop_ok (secRead : Reader SectorInformation) (n : nat) :
  forall i t inp t' out u,
  readSectorInformationBlocks_loop secRead i n t inp = (Ok u, t', out) ->
  exists ds, read_times secRead n inp = Some (ds, out) /\
             t' = set_Sectors (Sectors t ++ ds) t.
Proof.
  induction n as [|n IH]; intros i t inp t' out u H; cbn in H.
  - inversion H; subst. exists []. rewrite app_nil_r, set_Sectors_same. auto.
  - destruct (secRead inp) as [[s|e] inp1] eqn:E; [|discriminate].
    apply IH in H as [ds [Hr ->]]. exists (s :: ds).
    destruct (set_Sectors_fields (Sectors t ++ [s]) t) as [Hs _].
    rewrite Hs, set_Sectors_twice, <- app_assoc. cbn.
    rewrite E, Hr. auto.
Qed.

Lemma readSectorInformationBlocks_loop_reads (secRead : Reader SectorInformation) (n : nat) :
  forall i t inp ds out,
  read_times secRead n inp = Some (ds, out) ->
  readSectorInformationBlocks_loop secRead i n t inp
  = (Ok tt, set_Sectors (Sectors t ++ ds) t, out).
Proof.
  induction n as [|n IH]; intros i t inp ds out H; cbn in H.
  - inversion H; subst. cbn. now rewrite app_nil_r, set_Sectors_same.
  - destruct (secRead inp) as [[s|e] inp1] eqn:E; [|discriminate].
    destruct (read_times secRead n inp1) as [[ds' o]|] eqn:E'; [|discriminate].
    inversion H; subst. cbn [readSectorInformationBlocks_loop]. rewrite E.
    rewrite (IH _ _ _ _ _ E').
    destruct (set_Sectors_fields (Sectors t ++ [s]) t) as [Hs _].
    now rewrite Hs, set_Sectors_twice, <- app_assoc.
Qed.

Lemma readSectorInformationBlocks_loop_fail (secRead : Reader SectorInformation) (k : nat) :
  forall n i t inp ds mid e mid',
  read_times secRead k inp = Some (ds, mid) -> (k < n)%nat ->
  secRead mid = (Err e, mid') ->
  readSectorInformationBlocks_loop secRead i n t inp =
    (Err (Wrapf "error reading sector #%d" (i + Z.of_nat k + 1) e),
     set_Sectors (Sectors t ++ ds) t, mid').
Proof.
  induction k as [|k IH]; intros n i t inp ds mid e mid' Hr Hl He;
    destruct n as [|n]; try lia; cbn in Hr.
  - inversion Hr; subst. cbn. rewrite He, app_nil_r, set_Sectors_same.
    same_wrapf_arg.
  - destruct (secRead inp) as [[d|e0] inp1] eqn:E; [|discriminate].
    destruct (read_times secRead k inp1) as [[ds' o]|] eqn:E'; [|discriminate].
    inversion Hr; subst. cbn [readSectorInformationBlocks_loop]. rewrite E.
    rewrite (IH n (i + 1) _ _ _ _ e mid' E' ltac:(lia) He).
    destruct (set_Sectors_fields (Sectors t ++ [d]) t) as [Hs _].
    rewrite Hs, set_Sectors_twice, <- app_assoc. cbn [app].
    same_wrapf_arg.
Qed.

Lemma setBufferToDataAddress_ok (t : TrackInformation) (inp out : list byte) (u : unit) :
  setBufferToDataAddress t inp = (Ok u, out) ->
  exists pad, inp = pad ++ out /\
    Z.of_nat (length pad) = sectorDataStartAddress
      - (trackInformationBlockSize + byte_val (SectorsCount t) * sectorInformationBlockSize).
Proof.
  unfold setBufferToDataAddress, Discard. fold (byte_val (SectorsCount t)).
  set (n := sectorDataStartAddress - _).
  destruct (n <? 0) eqn:E1; [discriminate|].
  destruct (Z.of_nat (length inp) <? n) eqn:E2; [discriminate|].
  intros H. inversion H; subst. apply Z.ltb_ge in E1. apply Z.ltb_ge in E2.
  exists (firstn (Z.to_nat n) inp). rewrite firstn_skipn. split; [reflexivity|].
  rewrite length_firstn. lia.
Qed.

Lemma setBufferToDataAddress_negative (t : TrackInformation) (inp : list byte) :
  sectorDataStartAddress
    < trackInformationBlockSize + byte_val (SectorsCount t) * sectorInformationBlockSize ->
  setBufferToDataAddress t inp =
    (Err (Wrap "error moving reader position to 0x0100" ErrNegativeCount), inp).
Proof.
  intros H. unfold setBufferToDataAddress, Discard. fold (byte_val (SectorsCount t)).
  replace (_ <? 0) with true by (symmetry; apply Z.ltb_lt; lia). reflexivity.
Qed.

Lemma setBufferToDataAddress_pad (t : TrackInformation) (pad inp : list byte) :
  Z.of_nat (length pad) = sectorDataStartAddress
    - (trackInformationBlockSize + byte_val (SectorsCount t) * sectorInformationBlockSize) ->
  setBufferToDataAddress t (pad ++ inp) = (Ok tt, inp).
Proof.
  intros H. unfold setBufferToDataAddress, Discard. fold (byte_val (SectorsCount t)).
  set (n := sectorDataStartAddress - _).
  assert (Hn : n = Z.of_nat (length pad)) by (subst n; lia).
  rewrite Hn.
  replace (Z.of_nat (length pad) <? 0) with false by (symmetry; apply Z.ltb_ge; lia).
  replace (Z.of_nat (length (pad ++ inp)) <? Z.of_nat (length pad)) with false
    by (symmetry; apply Z.ltb_ge; rewrite length_app; lia).
  rewrite Nat2Z.id, skipn_app, skipn_all, Nat.sub_diag. reflexivity.
Qed.

Lemma readSectorData_loop_ok (dataRead : SectorInformation -> Reader (list byte))
    (ss : list SectorInformation) :
  forall i t inp t' out u,
  readSectorData_loop dataRead i ss t inp = (Ok u, t', out) ->
  exists ds, read_each dataRead ss inp = Some (ds, out) /\ t' = set_Data (Data t ++ ds) t.
Proof.
  induction ss as [|s ss IH]; intros i t inp t' out u H; cbn in H.
  - inversion H; subst. exists []. rewrite app_nil_r, set_Data_same. auto.
  - destruct (dataRead s inp) as [[d|e] inp1] eqn:E; [|discriminate].
    apply IH in H as [ds [Hr ->]]. exists (d :: ds).
    destruct (set_Data_fields (Data t ++ [d]) t) as [Hd _].
    rewrite Hd, set_Data_twice, <- app_assoc. cbn.
    rewrite E, Hr. auto.
Qed.

Lemma readSectorData_loop_fail (dataRead : SectorInformation -> Reader (list byte))
    (ss1 : list SectorInformation) :
  forall s ss2 i t inp ds mid e mid',
  read_each dataRead ss1 inp = Some (ds, mid) ->
  dataRead s mid = (Err e, mid') ->
  readSectorData_loop dataRead i (ss1 ++ s :: ss2) t inp =
    (Err (Wrapf "error reading sector #%d" (i + Z.of_nat (length ss1)) e),
     set_Data (Data t ++ ds) t, mid').
Proof.
  induction ss1 as [|x ss1 IH]; intros s ss2 i t inp ds mid e mid' Hr He; cbn in Hr.
  - inversion Hr; subst. cbn. rewrite He, app_nil_r, set_Data_same. same_wrapf_arg.
  - destruct (dataRead x inp) as [[y|e0] inp1] eqn:E; [|discriminate].
    destruct (read_each dataRead ss1 inp1) as [[ds' o]|] eqn:E'; [|discriminate].
    inversion Hr; subst. cbn [app readSectorData_loop]. rewrite E.
    rewrite (IH s ss2 (i + 1) _ _ _ _ e mid' E' He).
    destruct (set_Data_fields (Data t ++ [y]) t) as [Hd _].
    rewrite Hd, set_Data_twice, <- app_assoc. cbn [app length].
    same_wrapf_arg.
Qed.

Lemma TrackInformation_Read_header (secRead : Reader SectorInformation)
    (dataRead : SectorInformation -> Reader (list byte)) (t : TrackInformation)
    (hdr rest : list byte) :
  length hdr = 24%nat ->
  TrackInformation_Read secRead dataRead t (hdr ++ rest)
  = TrackInformation_afterHeader secRead dataRead (header_fields hdr t) rest.
Proof.
  intros H. change (TrackInformation_Read secRead dataRead)
    with (mbind TrackInformation_readHeader
                (fun _ : unit => TrackInformation_afterHeader secRead dataRead)).
  unfold mbind at 1. now rewrite readHeader_app.
Qed.

Lemma TrackInformation_Read_ok (secRead : Reader SectorInformation)
    (dataRead : SectorInformation -> Reader (list byte)) (t t' : TrackInformation)
    (inp out : list byte) (u : unit) :
  TrackInformation_Read secRead dataRead t inp = (Ok u, t', out) ->
  exists hdr inp1 dsec pad inp3 ddata,
    length hdr = 24%nat /\ inp = hdr ++ inp1 /\
    read_times secRead (Byte.to_nat (nth 21 hdr x00)) inp1 = Some (dsec, pad ++ inp3) /\
    Z.of_nat (length pad) = sectorDataStartAddress
      - (trackInformationBlockSize + byte_val (nth 21 hdr x00) * sectorInformationBlockSize) /\
    read_each dataRead (Sectors t ++ dsec) inp3 = Some (ddata, out) /\
    t' = set_Data (Data t ++ ddata) (set_Sectors (Sectors t ++ dsec) (header_fields hdr t)).
Proof.
  intros H. apply mbind_ok in H as [[] [t1 [inp1 [H1 H]]]].
  apply readHeader_ok in H1 as [hdr [Hl [-> ->]]].
  apply mbind_ok in H as [[] [t2 [inp2 [H2 H]]]].
  unfold readSectorInformationBlocks in H2.
  apply readSectorInformationBlocks_loop_ok in H2 as [dsec [Hr ->]].
  apply mbind_ok in H as [[] [t3 [inp3 [H3 H]]]].
  unfold read in H3.
  destruct (setBufferToDataAddress _ inp2) as [r inp3'] eqn:E.
  inversion H3; subst.
  apply setBufferToDataAddress_ok in E as [pad [-> Hpad]].
  unfold readSectorData in H. apply readSectorData_loop_ok in H as [ddata [Hd ->]].
  exists hdr, inp1, dsec, pad, inp3, ddata. destruct t. cbn in *.
  repeat split; auto.
Qed.

Lemma flat_map_word_bytes_length (body : list (byte * byte)) :
  length (flat_map word_bytes body) = (2 * length body)%nat.
Proof. induction body as [|w body IH]; cbn; [reflexivity|]. lia. Qed.

Lemma ReadShort_split (inp rest : list byte) (w : Z) :
  ReadShort inp = (Ok w, rest) -> exists lo hi, inp = [lo; hi] ++ rest /\ w = word16 (lo, hi).
Proof.
  unfold ReadShort, rbind, rret.
  destruct (ReadNextBytes 2 inp) as [[bs|e] r] eqn:E; [|discriminate].
  intros H. inversion H; subst. apply ReadNextBytes_ok in E as [Hl ->].
  destruct bs as [|lo [|hi [|]]]; try discriminate.
  exists lo, hi. split; [reflexivity|]. unfold word16. cbn [le_uint fst snd]. lia.
Qed.

Lemma CallSequence_readBlocks_split (n : nat) (c c' : CallSequence) (inp rest : list byte) :
  CallSequence_readBlocks n c inp = (Ok c', rest) ->
  exists body, length body = n /\ inp = flat_map word_bytes body ++ rest /\
    c' = mkCallSequence (Count c) (Blocks c ++ map word16 body).
Proof.
  revert c inp. induction n as [|n IH]; intros c inp H.
  - cbn in H. inversion H; subst. exists []. cbn. rewrite app_nil_r.
    destruct c'. auto.
  - cbn [CallSequence_readBlocks] in H. unfold rbind in H.
    destruct (ReadShort inp) as [[w|e] r] eqn:E; [|discriminate].
    apply ReadShort_split in E as [lo [hi [-> ->]]].
    apply IH in H as [body [Hl [-> ->]]].
    exists ((lo, hi) :: body). cbn [length flat_map map Count Blocks].
    split; [congruence|]. split; now rewrite <- app_assoc.
Qed.

Lemma word16_range (w : byte * byte) : 0 <= word16 w < 65536.
Proof.
  destruct w as [lo hi]. unfold word16. cbn [fst snd].
  pose proof (byte_val_range lo). pose proof (byte_val_range hi). lia.
Qed.


(** * Claims *)

(** ** C1: bytes consumed and offsets decoded by [CallSequence.Read] *)

(** C1 (counterexample).  [Read] appends the decoded offsets to [Blocks]:
    on a receiver whose [Blocks] already holds one offset, reading the
    encoding of a one-offset sequence leaves two offsets in [Blocks], not
    [N] = 1. *)
Lemma CallSequence_Read_prefilled_counterexample :
  CallSequence_Read (mkCallSequence 0 [7]) [x01; x00; x05; x00]
    = (Ok (mkCallSequence 1 [7; 5]), []) /\
  length (Blocks (mkCallSequence 1 [7; 5])) <> Z.to_nat (Count (mkCallSequence 1 [7; 5])).
Proof. split; [reflexivity | cbn; discriminate]. Qed.

(** C1 (amended).  For an input made of a 16-bit little-endian count
    [N = lo + 256*hi] followed by [N] two-byte words and any rest,
    [CallSequence.Read] consumes exactly [2 + 2N] bytes, sets [Count] to [N]
    and appends the [N] words, in input order, to [Blocks]; from a
    zero-valued receiver [Blocks] is exactly those [N] offsets. *)
Theorem CallSequence_Read_decodes (c : CallSequence) (lo hi : byte)
    (body : list (byte * byte)) (rest : list byte) :
  Z.of_nat (length body) = word16 (lo, hi) ->
  length ([lo; hi] ++ flat_map word_bytes body) = (2 + 2 * length body)%nat /\
  CallSequence_Read c ([lo; hi] ++ flat_map word_bytes body ++ rest)
    = (Ok (mkCallSequence (word16 (lo, hi)) (Blocks c ++ map word16 body)), rest).
Proof.
  intros HN. split.
  - rewrite length_app, flat_map_word_bytes_length. reflexivity.
  - unfold CallSequence_Read, rbind at 1. rewrite ReadShort_app. cbn [Count Blocks].
    replace (Z.to_nat (word16 (lo, hi))) with (length body) by lia.
    rewrite CallSequence_readBlocks_app. reflexivity.
Qed.

Lemma CallSequence_Read_decodes_witness :
  Z.of_nat (length [(x05, x00); (xfe, xff)]) = word16 (x02, x00) /\
  (length ([x02; x00] ++ flat_map word_bytes [(x05, x00); (xfe, xff)])
     = (2 + 2 * length [(x05, x00); (xfe, xff)])%nat /\
   CallSequence_Read zero_CallSequence
     ([x02; x00] ++ flat_map word_bytes [(x05, x00); (xfe, xff)] ++ [x2a])
   = (Ok (mkCallSequence (word16 (x02, x00))
            (Blocks zero_CallSequence ++ map word16 [(x05, x00); (xfe, xff)])), [x2a])).
Proof.
  split; [reflexivity|].
  apply (CallSequence_Read_decodes zero_CallSequence x02 x00 [(x05, x00); (xfe, xff)] [x2a]).
  reflexivity.
Defined.

(** ** C2: signedness of the decoded offsets *)




(** ** C7: layout read by [CustomInfo.Read] *)

(** C7.  For an input made of 10 identification bytes, a 32-bit
    little-endian length [L] and [L] info bytes (then anything),
    [CustomInfo.Read] consumes exactly those [14 + L] bytes, sets
    [Identification] and [Length] from them in that order, and appends the
    [L] info bytes; from a zero-valued receiver [len(Info) = L]. *)
Theorem CustomInfo_Read_layout (c : CustomInfo) (ident : list byte) (l0 l1 l2 l3 : byte)
    (info rest : list byte) :
  length ident = 10%nat ->
  Z.of_nat (length info) = le_uint [l0; l1; l2; l3] ->
  length (ident ++ [l0; l1; l2; l3] ++ info) = (14 + length info)%nat /\
  CustomInfo_Read c (ident ++ [l0; l1; l2; l3] ++ info ++ rest)
    = (Ok (mkCustomInfo ident (le_uint [l0; l1; l2; l3]) (Info c ++ info)), rest) /\
  (Info c = [] -> Z.of_nat (length (Info c ++ info)) = le_uint [l0; l1; l2; l3]).
Proof.
  intros Hid HL. split; [|split].
  - rewrite !length_app, Hid. reflexivity.
  - unfold CustomInfo_Read, ReadBytes, ReadLong, rbind, rret.
    change (Z.to_nat 10) with 10%nat. rewrite ReadNextBytes_app by exact Hid.
    rewrite ReadNextBytes_app by reflexivity. cbn [Length Info Identification].
    replace (Z.to_nat (le_uint [l0; l1; l2; l3])) with (length info) by lia.
    rewrite ReadNextBytes_app by reflexivity. reflexivity.
  - intros ->. exact HL.
Qed.

Lemma CustomInfo_Read_layout_witness :
  length (repeat x41 10) = 10%nat /\
  Z.of_nat (length [x61; x62]) = le_uint [x02; x00; x00; x00] /\
  (length (repeat x41 10 ++ [x02; x00; x00; x00] ++ [x61; x62]) = (14 + length [x61; x62])%nat /\
   CustomInfo_Read zero_CustomInfo (repeat x41 10 ++ [x02; x00; x00; x00] ++ [x61; x62] ++ [x35])
     = (Ok (mkCustomInfo (repeat x41 10) (le_uint [x02; x00; x00; x00])
              (Info zero_CustomInfo ++ [x61; x62])), [x35]) /\
   (Info zero_CustomInfo = [] ->
    Z.of_nat (length (Info zero_CustomInfo ++ [x61; x62])) = le_uint [x02; x00; x00; x00])).
Proof.
  split; [reflexivity | split; [reflexivity|]].
  apply (CustomInfo_Read_layout zero_CustomInfo (repeat x41 10) x02 x00 x00 x00
           [x61; x62] [x35]); reflexivity.
Defined.

(** ** C10: [CustomInfo.Read] appends to [Info] *)

(** C10.  After a successful [CustomInfo.Read] the [Info] field is the
    bytes it held before, unchanged, followed by exactly [Length] new
    bytes. *)
Theorem CustomInfo_Read_appends (c c' : CustomInfo) (inp rest : list byte) :
  CustomInfo_Read c inp = (Ok c', rest) ->
  exists info, Info c' = Info c ++ info /\ Z.of_nat (length info) = Length c' /\
    length (Info c') = (length (Info c) + length info)%nat.
Proof.
  intros H. apply CustomInfo_Read_ok in H
    as (ident & lb & info & _ & _ & _ & HL & Hinfo & ->).
  exists info. cbn [Info Length]. pose proof (le_uint_nonneg lb).
  repeat split; [lia|]. apply length_app.
Qed.

Lemma CustomInfo_Read_appends_witness :
  CustomInfo_Read (mkCustomInfo (repeat x00 10) 0 [x7a])
    (repeat x41 10 ++ [x01; x00; x00; x00; x62])
    = (Ok (mkCustomInfo (repeat x41 10) 1 [x7a; x62]), []) /\
  exists info, Info (mkCustomInfo (repeat x41 10) 1 [x7a; x62]) = [x7a] ++ info /\
    Z.of_nat (length info) = 1 /\ length [x7a; x62] = (length [x7a] + length info)%nat.
Proof.
  split; [reflexivity|].
  apply (CustomInfo_Read_appends (mkCustomInfo (repeat x00 10) 0 [x7a])
           (mkCustomInfo (repeat x41 10) 1 [x7a; x62])
           (repeat x41 10 ++ [x01; x00; x00; x00; x62]) []).
  reflexivity.
Defined.

(** ** C6: the 24-byte track header *)

(** C6.  [TrackInformation.Read] consumes exactly the first 24 bytes for
    the header, assigning the identifier (bytes 0-12), the unused bytes
    13-15, the track (16), the side (17), the unused bytes 18-19, the sector
    size code (20), the sector count (21), the gap length (22) and the filler
    byte (23), and continues with the descriptor table on the remaining
    input. *)
Theorem TrackInformation_Read_header_layout (secRead : Reader SectorInformation)
    (dataRead : SectorInformation -> Reader (list byte)) (t : TrackInformation)
    (hdr rest : list byte) :
  length hdr = 24%nat ->
  TrackInformation_Read secRead dataRead t (hdr ++ rest)
  = TrackInformation_afterHeader secRead dataRead (header_fields hdr t) rest.
Proof. apply TrackInformation_Read_header. Qed.

Lemma TrackInformation_Read_header_layout_witness :
  length (sample_track x01 2) = 24%nat /\
  TrackInformation_Read SectorInformation_Read SectorInformation_DataRead
    zero_TrackInformation (sample_track x01 2 ++ [x2a])
  = TrackInformation_afterHeader SectorInformation_Read SectorInformation_DataRead
      (header_fields (sample_track x01 2) zero_TrackInformation) [x2a].
Proof.
  split; [reflexivity|].
  apply (TrackInformation_Read_header_layout SectorInformation_Read
           SectorInformation_DataRead zero_TrackInformation (sample_track x01 2) [x2a]).
  reflexivity.
Defined.

(** ** C4: sector and payload counts *)

(** C4.  A successful [TrackInformation.Read] from a zero-valued receiver
    leaves [len(Sectors) = SectorsCount = len(Data)]. *)
Theorem TrackInformation_Read_counts (secRead : Reader SectorInformation)
    (dataRead : SectorInformation -> Reader (list byte)) (t t' : TrackInformation)
    (inp out : list byte) :
  Sectors t = [] -> Data t = [] ->
  TrackInformation_Read secRead dataRead t inp = (Ok tt, t', out) ->
  length (Sectors t') = Byte.to_nat (SectorsCount t') /\
  length (Data t') = Byte.to_nat (SectorsCount t').
Proof.
  intros Hs Hd H.
  apply TrackInformation_Read_ok in H
    as (hdr & inp1 & dsec & pad & inp3 & ddata & _ & _ & Hr & _ & Hd' & ->).
  apply read_times_length in Hr. apply read_each_length in Hd'.
  destruct t as [? ? ? ? ? ? ? ? ? sec dat]. cbn in Hs, Hd |- *. subst sec dat.
  cbn in Hd' |- *. split; congruence.
Qed.

Lemma TrackInformation_Read_counts_witness :
  let '(r, t', out) := TrackInformation_Read SectorInformation_Read
                         SectorInformation_DataRead zero_TrackInformation
                         (sample_track x01 362) in
  r = Ok tt /\
  length (Sectors t') = Byte.to_nat (SectorsCount t') /\
  length (Data t') = Byte.to_nat (SectorsCount t').
Proof.
  destruct (TrackInformation_Read SectorInformation_Read SectorInformation_DataRead
              zero_TrackInformation (sample_track x01 362)) as [[r t'] out] eqn:E.
  assert (Hr : r = Ok tt) by (vm_compute in E; congruence). subst r.
  split; [reflexivity|].
  apply (TrackInformation_Read_counts SectorInformation_Read SectorInformation_DataRead
           zero_TrackInformation t' (sample_track x01 362) out); [reflexivity | reflexivity | exact E].
Defined.

(** ** C5: payloads in descriptor order *)

(** C5 (counterexample).  On a receiver whose [Data] already holds one
    entry, a successful read of a one-sector track leaves that old entry as
    [Data[0]]; the payload read for [Sectors[0]] is [Data[1]]. *)
Lemma TrackInformation_Read_prefilled_Data_counterexample :
  let '(r, t', out) := TrackInformation_Read SectorInformation_Read
                         SectorInformation_DataRead (set_Data [[x07]] zero_TrackInformation)
                         (sample_track x01 362) in
  r = Ok tt /\ Sectors t' = [zero_sector] /\ Data t' = [[x07]; repeat x00 128] /\
  SectorInformation_DataRead zero_sector (repeat x00 128) = (Ok (repeat x00 128), []).
Proof. vm_compute. repeat split. Qed.

(** C5 (amended).  After a successful [TrackInformation.Read] the payloads
    it appends to [Data] are one per entry of [Sectors] (all of it,
    including entries held before the call), read in [Sectors] order, each
    at the cursor the previous one left, with no gap or reordering; from a
    receiver with empty [Data], [Data[i]] is the payload read for
    [Sectors[i]]. *)
Theorem TrackInformation_Read_payload_order (secRead : Reader SectorInformation)
    (dataRead : SectorInformation -> Reader (list byte)) (t t' : TrackInformation)
    (inp out : list byte) :
  TrackInformation_Read secRead dataRead t inp = (Ok tt, t', out) ->
  exists mid new,
    Data t' = Data t ++ new /\
    read_each dataRead (Sectors t') mid = Some (new, out) /\
    (Data t = [] -> read_each dataRead (Sectors t') mid = Some (Data t', out)).
Proof.
  intros H.
  apply TrackInformation_Read_ok in H
    as (hdr & inp1 & dsec & pad & inp3 & ddata & _ & _ & _ & _ & Hd & ->).
  exists inp3, ddata.
  destruct t as [? ? ? ? ? ? ? ? ? sec dat]. cbn in Hd |- *.
  repeat split; auto. intros ->. exact Hd.
Qed.

Lemma TrackInformation_Read_payload_order_witness :
  let '(r, t', out) := TrackInformation_Read SectorInformation_Read
                         SectorInformation_DataRead zero_TrackInformation
                         (sample_track x02 (2 + 16 + 216 + 256)) in
  r = Ok tt /\
  exists mid new,
    Data t' = Data zero_TrackInformation ++ new /\
    read_each SectorInformation_DataRead (Sectors t') mid = Some (new, out) /\
    (Data zero_TrackInformation = [] ->
     read_each SectorInformation_DataRead (Sectors t') mid = Some (Data t', out)).
Proof.
  destruct (TrackInformation_Read SectorInformation_Read SectorInformation_DataRead
              zero_TrackInformation (sample_track x02 (2 + 16 + 216 + 256)))
    as [[r t'] out] eqn:E.
  assert (Hr : r = Ok tt) by (vm_compute in E; congruence). subst r.
  split; [reflexivity|].
  apply (TrackInformation_Read_payload_order SectorInformation_Read
           SectorInformation_DataRead zero_TrackInformation t'
           (sample_track x02 (2 + 16 + 216 + 256)) out).
  exact E.
Defined.

(** ** C3: the descriptor table against the data offset 0x100 *)

(** C3 (counterexample).  A header declaring 29 sectors gives
    [24 + 29 * 8 = 0x100], a zero remainder; [TrackInformation.Read]
    discards 0 bytes and succeeds. *)
Lemma TrackInformation_Read_zero_remainder_counterexample :
  sectorDataStartAddress <= trackInformationBlockSize + byte_val x1d * sectorInformationBlockSize /\
  fst (fst (TrackInformation_Read SectorInformation_Read SectorInformation_DataRead
              zero_TrackInformation (sample_track x1d (2 + 29 * 8 + 29 * 128)))) = Ok tt.
Proof. split; vm_compute; [discriminate | reflexivity]. Qed.

(** C3 (amended).  When the header declares [SectorsCount] descriptors with
    [24 + SectorsCount * 8 > 0x100] (a negative remainder) and all the
    descriptors are read, [TrackInformation.Read] fails with the discard's
    negative-count error wrapped as "error moving reader position to
    0x0100", leaving the reader after the descriptors; a zero remainder
    ([SectorsCount = 29]) is accepted: the discard of 0 bytes succeeds. *)
Theorem TrackInformation_Read_negative_remainder (secRead : Reader SectorInformation)
    (dataRead : SectorInformation -> Reader (list byte)) (t : TrackInformation)
    (hdr rest : list byte) (ds : list SectorInformation) (mid : list byte) :
  length hdr = 24%nat ->
  sectorDataStartAddress
    < trackInformationBlockSize + byte_val (nth 21 hdr x00) * sectorInformationBlockSize ->
  read_times secRead (Byte.to_nat (nth 21 hdr x00)) rest = Some (ds, mid) ->
  TrackInformation_Read secRead dataRead t (hdr ++ rest) =
    (Err (Wrap "error moving reader position to 0x0100" ErrNegativeCount),
     set_Sectors (Sectors t ++ ds) (header_fields hdr t), mid) /\
  (forall (t0 : TrackInformation) (inp0 : list byte),
     byte_val (SectorsCount t0) = 29 -> setBufferToDataAddress t0 inp0 = (Ok tt, inp0)).
Proof.
  intros Hl Hneg Hr. split.
  - rewrite TrackInformation_Read_header by exact Hl.
    unfold TrackInformation_afterHeader, mbind at 1, readSectorInformationBlocks.
    rewrite (readSectorInformationBlocks_loop_reads secRead _ 0 _ rest ds mid Hr).
    unfold mbind, read.
    rewrite setBufferToDataAddress_negative; [reflexivity|].
    destruct (set_Sectors_fields (Sectors (header_fields hdr t) ++ ds) (header_fields hdr t))
      as [_ [_ ->]].
    exact Hneg.
  - intros t0 inp0 H29. unfold setBufferToDataAddress, Discard.
    fold (byte_val (SectorsCount t0)). rewrite H29. cbn. now destruct inp0.
Qed.

Lemma TrackInformation_Read_negative_remainder_witness :
  length (sample_track x1e 2) = 24%nat /\
  sectorDataStartAddress
    < trackInformationBlockSize + byte_val (nth 21 (sample_track x1e 2) x00)
                                  * sectorInformationBlockSize /\
  read_times SectorInformation_Read (Byte.to_nat (nth 21 (sample_track x1e 2) x00))
    (repeat x00 240) = Some (repeat zero_sector 30, []) /\
  (TrackInformation_Read SectorInformation_Read SectorInformation_DataRead
     zero_TrackInformation (sample_track x1e 2 ++ repeat x00 240) =
   (Err (Wrap "error moving reader position to 0x0100" ErrNegativeCount),
    set_Sectors (Sectors zero_TrackInformation ++ repeat zero_sector 30)
      (header_fields (sample_track x1e 2) zero_TrackInformation), []) /\
   (forall (t0 : TrackInformation) (inp0 : list byte),
      byte_val (SectorsCount t0) = 29 -> setBufferToDataAddress t0 inp0 = (Ok tt, inp0))).
Proof.
  split; [reflexivity | split; [vm_compute; reflexivity | split; [vm_compute; reflexivity|]]].
  apply (TrackInformation_Read_negative_remainder SectorInformation_Read
           SectorInformation_DataRead zero_TrackInformation (sample_track x1e 2)
           (repeat x00 240) (repeat zero_sector 30) []);
    vm_compute; reflexivity.
Defined.

(** ** C9: no rollback on error *)

(** C9.  [TrackInformation.Read] does not restore the receiver on error:
    (a) when descriptors 1..k are read and descriptor k+1 (k below the
    declared count) fails, it returns the error with those k descriptors
    appended to [Sectors]; (b) when the descriptors and the padding are read
    and payload k fails after payloads 1..k-1 were read, it returns the error
    with those k-1 payloads appended to [Data]. *)
Theorem TrackInformation_Read_not_atomic (secRead : Reader SectorInformation)
    (dataRead : SectorInformation -> Reader (list byte)) (t : TrackInformation)
    (hdr rest : list byte) :
  length hdr = 24%nat ->
  (forall k ds mid e mid',
     (k < Byte.to_nat (nth 21 hdr x00))%nat ->
     read_times secRead k rest = Some (ds, mid) ->
     secRead mid = (Err e, mid') ->
     TrackInformation_Read secRead dataRead t (hdr ++ rest) =
       (Err (Wrapf "error reading sector #%d" (Z.of_nat k + 1) e),
        set_Sectors (Sectors t ++ ds) (header_fields hdr t), mid')) /\
  (forall dsec pad inp3 ss1 s ss2 pdata mid e mid',
     read_times secRead (Byte.to_nat (nth 21 hdr x00)) rest = Some (dsec, pad ++ inp3) ->
     Z.of_nat (length pad) = sectorDataStartAddress
       - (trackInformationBlockSize + byte_val (nth 21 hdr x00) * sectorInformationBlockSize) ->
     Sectors t ++ dsec = ss1 ++ s :: ss2 ->
     read_each dataRead ss1 inp3 = Some (pdata, mid) ->
     dataRead s mid = (Err e, mid') ->
     TrackInformation_Read secRead dataRead t (hdr ++ rest) =
       (Err (Wrapf "error reading sector #%d" (Z.of_nat (length ss1)) e),
        set_Data (Data t ++ pdata) (set_Sectors (Sectors t ++ dsec) (header_fields hdr t)),
        mid')).
Proof.
  intros Hl. rewrite TrackInformation_Read_header by exact Hl.
  split.
  - intros k ds mid e mid' Hk Hr He.
    unfold TrackInformation_afterHeader, mbind at 1, readSectorInformationBlocks.
    rewrite (readSectorInformationBlocks_loop_fail secRead k _ 0 _ rest ds mid e mid' Hr Hk He).
    reflexivity.
  - intros dsec pad inp3 ss1 s ss2 pdata mid e mid' Hr Hpad Hss Hp He.
    unfold TrackInformation_afterHeader, mbind at 1, readSectorInformationBlocks.
    rewrite (readSectorInformationBlocks_loop_reads secRead _ 0 _ rest dsec (pad ++ inp3) Hr).
    unfold mbind, read.
    rewrite setBufferToDataAddress_pad.
    + unfold readSectorData.
      destruct (set_Sectors_fields (Sectors (header_fields hdr t) ++ dsec)
                  (header_fields hdr t)) as [HS [HD _]].
      rewrite HS. change (Sectors (header_fields hdr t)) with (Sectors t). rewrite Hss.
      rewrite (readSectorData_loop_fail dataRead ss1 s ss2 0 _ inp3 pdata mid e mid' Hp He).
      destruct t; reflexivity.
    + destruct (set_Sectors_fields (Sectors (header_fields hdr t) ++ dsec)
                  (header_fields hdr t)) as [_ [_ ->]].
      exact Hpad.
Qed.

(** The two sample tracks of the witness: two sectors declared; in the
    first only one descriptor and 3 more bytes follow the header, in the
    second the descriptors, the padding, one payload and 10 more bytes. *)
Lemma TrackInformation_Read_not_atomic_witness :
  length (sample_track x02 2) = 24%nat /\
  TrackInformation_Read SectorInformation_Read SectorInformation_DataRead
    zero_TrackInformation (sample_track x02 2 ++ repeat x00 11) =
    (Err (Wrapf "error reading sector #%d" 2 EOF),
     set_Sectors [zero_sector] (header_fields (sample_track x02 2) zero_TrackInformation), []) /\
  TrackInformation_Read SectorInformation_Read SectorInformation_DataRead
    zero_TrackInformation (sample_track x02 2 ++ repeat x00 (16 + 216 + 138)) =
    (Err (Wrapf "error reading sector #%d" 1 EOF),
     set_Data [repeat x00 128]
       (set_Sectors [zero_sector; zero_sector]
          (header_fields (sample_track x02 2) zero_TrackInformation)), []).
Proof.
  assert (Hl : length (sample_track x02 2) = 24%nat) by reflexivity.
  destruct (TrackInformation_Read_not_atomic SectorInformation_Read SectorInformation_DataRead
              zero_TrackInformation (sample_track x02 2) (repeat x00 11) Hl) as [Ha _].
  destruct (TrackInformation_Read_not_atomic SectorInformation_Read SectorInformation_DataRead
              zero_TrackInformation (sample_track x02 2) (repeat x00 (16 + 216 + 138)) Hl)
    as [_ Hb].
  split; [exact Hl | split].
  - apply (Ha 1%nat [zero_sector] (repeat x00 3) EOF []); vm_compute; reflexivity.
  - apply (Hb [zero_sector; zero_sector] (repeat x00 216) (repeat x00 138)
             [zero_sector] zero_sector [] [repeat x00 128] (repeat x00 10) EOF []);
      vm_compute; reflexivity.
Defined.

(** * Further properties of the block readers *)

(** ** Helper lemmas *)

(** ** X1: [GlueBlock.Read] *)

(** X1.  On a glue block (a [[9]byte] value), [GlueBlock.Read] consumes
    exactly the next 9 bytes and stores them, in order, as the new value;
    the previous value is entirely overwritten. *)
Theorem GlueBlock_Read_value (g : GlueBlock) (bs rest : list byte) :
  length (Value g) = 9%nat -> length bs = 9%nat ->
  GlueBlock_Read g (bs ++ rest) = (Ok (mkGlueBlock bs), rest).
Proof.
  intros Hg Hb. unfold GlueBlock_Read, ReadBytes, rbind, rret.
  rewrite ReadNextBytes_app by (rewrite Hb; reflexivity).
  rewrite Hb, <- Hg, skipn_all, app_nil_r. reflexivity.
Qed.

Lemma GlueBlock_Read_value_witness :
  length (Value (mkGlueBlock (repeat x00 9))) = 9%nat /\
  GlueBlock_Read (mkGlueBlock (repeat x00 9))
    ([x58; x54; x61; x70; x65; x21; x1a; x01; x14] ++ [x10])
  = (Ok (mkGlueBlock [x58; x54; x61; x70; x65; x21; x1a; x01; x14]), [x10]).
Proof.
  split; [reflexivity|].
  apply (GlueBlock_Read_value (mkGlueBlock (repeat x00 9))
           [x58; x54; x61; x70; x65; x21; x1a; x01; x14] [x10]); reflexivity.
Defined.

(** ** X2: what a successful [CallSequence.Read] consumed *)

(** X2.  Every successful [CallSequence.Read] consumed a 16-bit
    little-endian count word [N] followed by exactly [N] two-byte words and
    nothing more; it sets [Count] to [N] and appends those [N] words, in
    input order, to [Blocks]. *)
Theorem CallSequence_Read_consumed (c c' : CallSequence) (inp rest : list byte) :
  CallSequence_Read c inp = (Ok c', rest) ->
  exists lo hi body,
    inp = [lo; hi] ++ flat_map word_bytes body ++ rest /\
    Z.of_nat (length body) = word16 (lo, hi) /\
    c' = mkCallSequence (word16 (lo, hi)) (Blocks c ++ map word16 body).
Proof.
  unfold CallSequence_Read, rbind at 1.
  destruct (ReadShort inp) as [[n|e] r] eqn:E; [|discriminate].
  apply ReadShort_split in E as [lo [hi [-> ->]]].
  cbn [Count Blocks]. intros H.
  apply CallSequence_readBlocks_split in H as [body [Hl [-> ->]]].
  exists lo, hi, body. cbn [Count Blocks]. repeat split.
  rewrite Hl. pose proof (word16_range (lo, hi)). lia.
Qed.

Lemma CallSequence_Read_consumed_witness :
  CallSequence_Read zero_CallSequence [x02; x00; x05; x00; xff; xff; x2a]
    = (Ok (mkCallSequence 2 [5; 65535]), [x2a]) /\
  exists lo hi body,
    [x02; x00; x05; x00; xff; xff; x2a] = [lo; hi] ++ flat_map word_bytes body ++ [x2a] /\
    Z.of_nat (length body) = word16 (lo, hi) /\
    mkCallSequence 2 [5; 65535]
    = mkCallSequence (word16 (lo, hi)) (Blocks zero_CallSequence ++ map word16 body).
Proof.
  split; [reflexivity|].
  apply (CallSequence_Read_consumed zero_CallSequence (mkCallSequence 2 [5; 65535])
           [x02; x00; x05; x00; xff; xff; x2a] [x2a]).
  reflexivity.
Defined.

(** ** X3: what a successful [CustomInfo.Read] consumed *)

(** X3.  Every successful [CustomInfo.Read] consumed exactly [14 + Length]
    bytes (10 identification bytes, the 4-byte length, [Length] info
    bytes); the length read is an unsigned 32-bit value and the
    identification holds 10 bytes. *)
Theorem CustomInfo_Read_consumed (c c' : CustomInfo) (inp rest : list byte) :
  CustomInfo_Read c inp = (Ok c', rest) ->
  exists pre, inp = pre ++ rest /\ Z.of_nat (length pre) = 14 + Length c' /\
    0 <= Length c' < 4294967296 /\ length (Identification c') = 10%nat.
Proof.
  intros H. apply CustomInfo_Read_ok in H
    as (ident & lb & info & -> & Hi & Hlb & HL & Hinfo & ->).
  cbn [Length Identification].
  assert (Hr : 0 <= le_uint lb < 4294967296).
  { destruct lb as [|b0 [|b1 [|b2 [|b3 [|]]]]]; try discriminate. cbn [le_uint].
    pose proof (byte_val_range b0). pose proof (byte_val_range b1).
    pose proof (byte_val_range b2). pose proof (byte_val_range b3). lia. }
  exists (ident ++ lb ++ info). rewrite <- !app_assoc.
  repeat split; try lia; auto.
  rewrite !length_app, Hi, Hlb, Hinfo. lia.
Qed.

Lemma CustomInfo_Read_consumed_witness :
  CustomInfo_Read zero_CustomInfo (repeat x41 10 ++ [x02; x00; x00; x00; x07; x08; x09])
    = (Ok (mkCustomInfo (repeat x41 10) 2 [x07; x08]), [x09]) /\
  exists pre, repeat x41 10 ++ [x02; x00; x00; x00; x07; x08; x09] = pre ++ [x09] /\
    Z.of_nat (length pre) = 14 + Length (mkCustomInfo (repeat x41 10) 2 [x07; x08]) /\
    0 <= Length (mkCustomInfo (repeat x41 10) 2 [x07; x08]) < 4294967296 /\
    length (Identification (mkCustomInfo (repeat x41 10) 2 [x07; x08])) = 10%nat.
Proof.
  split; [reflexivity|].
  apply (CustomInfo_Read_consumed zero_CustomInfo (mkCustomInfo (repeat x41 10) 2 [x07; x08])).
  reflexivity.
Defined.

(** ** X4: at most 29 sector descriptors on a track that reads *)

Lemma SectorsCount_after_Read (hdr : list byte) (t : TrackInformation)
    (dsec : list SectorInformation) (ddata : list (list byte)) :
  SectorsCount (set_Data (Data t ++ ddata) (set_Sectors (Sectors t ++ dsec) (header_fields hdr t)))
  = nth 21 hdr x00.
Proof. destruct t; reflexivity. Qed.

(** X4.  A [TrackInformation.Read] that succeeds leaves a [SectorsCount]
    of at most 29: the header and the descriptor table
    ([24 + 8 * SectorsCount] bytes) must fit below the sector data at
    offset 0x100, whatever the descriptor and payload readers do. *)
Theorem TrackInformation_Read_sectors_bound (secRead : Reader SectorInformation)
    (dataRead : SectorInformation -> Reader (list byte)) (t t' : TrackInformation)
    (inp out : list byte) (u : unit) :
  TrackInformation_Read secRead dataRead t inp = (Ok u, t', out) ->
  byte_val (SectorsCount t') <= 29.
Proof.
  intros H.
  apply TrackInformation_Read_ok in H
    as (hdr & inp1 & dsec & pad & inp3 & ddata & _ & _ & _ & Hpad & _ & ->).
  rewrite SectorsCount_after_Read.
  unfold sectorDataStartAddress, trackInformationBlockSize, sectorInformationBlockSize in Hpad.
  lia.
Qed.

Lemma TrackInformation_Read_sectors_bound_witness :
  let '(r, t', out) := TrackInformation_Read SectorInformation_Read
                         SectorInformation_DataRead zero_TrackInformation
                         (sample_track x01 362) in
  r = Ok tt /\ byte_val (SectorsCount t') <= 29.
Proof.
  destruct (TrackInformation_Read SectorInformation_Read SectorInformation_DataRead
              zero_TrackInformation (sample_track x01 362)) as [[r t'] out] eqn:E.
  assert (Hr : r = Ok tt) by (vm_compute in E; congruence). subst r.
  split; [reflexivity|].
  exact (TrackInformation_Read_sectors_bound SectorInformation_Read SectorInformation_DataRead
           zero_TrackInformation t' (sample_track x01 362) out tt E).
Defined.

(** ** X5: the sector data starts at offset 0x100 *)

Lemma read_times_fixed {B} (rd : Reader B) (k : nat) :
  (forall i s o, rd i = (Ok s, o) -> exists p, i = p ++ o /\ length p = k) ->
  forall n inp ys out, read_times rd n inp = Some (ys, out) ->
  exists p, inp = p ++ out /\ length p = (n * k)%nat.
Proof.
  intros Hrd. induction n as [|n IH]; intros inp ys out H; cbn in H.
  - inversion H; subst. exists []. auto.
  - destruct (rd inp) as [[y|e] inp1] eqn:E; [|discriminate].
    destruct (read_times rd n inp1) as [[ys' o]|] eqn:E'; [|discriminate].
    inversion H; subst.
    apply Hrd in E as [p1 [-> Hp1]]. apply IH in E' as [p2 [-> Hp2]].
    exists (p1 ++ p2). rewrite app_assoc, length_app. split; [reflexivity|]. lia.
Qed.

Lemma byte_val_to_nat (b : byte) : Z.of_nat (Byte.to_nat b) = byte_val b.
Proof. rewrite Byte.to_nat_via_N. unfold byte_val. lia. Qed.

(** X5.  When each descriptor read consumes exactly
    [sectorInformationBlockSize] (8) bytes, a successful
    [TrackInformation.Read] reads the sector payloads from offset 0x100 of
    the track block: the first 0x100 bytes are header, descriptors and
    padding, and from there the payloads of [Sectors] are read one after
    the other and appended to [Data]. *)
Theorem TrackInformation_Read_data_at_0x100 (secRead : Reader SectorInformation)
    (dataRead : SectorInformation -> Reader (list byte)) (t t' : TrackInformation)
    (inp out : list byte) (u : unit) :
  (forall i s o, secRead i = (Ok s, o) ->
     exists p, i = p ++ o /\ Z.of_nat (length p) = sectorInformationBlockSize) ->
  TrackInformation_Read secRead dataRead t inp = (Ok u, t', out) ->
  exists pre mid new,
    inp = pre ++ mid /\ Z.of_nat (length pre) = sectorDataStartAddress /\
    read_each dataRead (Sectors t') mid = Some (new, out) /\ Data t' = Data t ++ new.
Proof.
  intros Hsec H.
  apply TrackInformation_Read_ok in H
    as (hdr & inp1 & dsec & pad & inp3 & ddata & Hl & -> & Hr & Hpad & Hd & ->).
  apply (read_times_fixed secRead 8) in Hr as [p [-> Hp]].
  2: { intros i s o Hs. apply Hsec in Hs as [q [-> Hq]]. exists q.
       unfold sectorInformationBlockSize in Hq. split; [reflexivity | lia]. }
  exists (hdr ++ p ++ pad), inp3, ddata.
  rewrite <- !app_assoc. split; [reflexivity|].
  split.
  - rewrite !length_app, Hl, Nat2Z.inj_add, Nat2Z.inj_add, Hpad.
    rewrite Hp, Nat2Z.inj_mul, byte_val_to_nat.
    unfold sectorDataStartAddress, trackInformationBlockSize, sectorInformationBlockSize.
    lia.
  - destruct t. cbn in *. auto.
Qed.

Lemma SectorInformation_Read_8 (i : list byte) (s : SectorInformation) (o : list byte) :
  SectorInformation_Read i = (Ok s, o) ->
  exists p, i = p ++ o /\ Z.of_nat (length p) = sectorInformationBlockSize.
Proof.
  unfold SectorInformation_Read, rbind, rret.
  destruct (ReadNextBytes 8 i) as [[bs|e] r] eqn:E; [|discriminate].
  intros H. inversion H; subst. apply ReadNextBytes_ok in E as [Hl ->].
  exists bs. rewrite Hl. split; reflexivity.
Qed.

Lemma TrackInformation_Read_data_at_0x100_witness :
  let '(r, t', out) := TrackInformation_Read SectorInformation_Read
                         SectorInformation_DataRead zero_TrackInformation
                         (sample_track x02 (2 + 16 + 216 + 256)) in
  r = Ok tt /\
  exists pre mid new,
    sample_track x02 (2 + 16 + 216 + 256) = pre ++ mid /\
    Z.of_nat (length pre) = sectorDataStartAddress /\
    read_each SectorInformation_DataRead (Sectors t') mid = Some (new, out) /\
    Data t' = Data zero_TrackInformation ++ new.
Proof.
  destruct (TrackInformation_Read SectorInformation_Read SectorInformation_DataRead
              zero_TrackInformation (sample_track x02 (2 + 16 + 216 + 256)))
    as [[r t'] out] eqn:E.
  assert (Hr : r = Ok tt) by (vm_compute in E; congruence). subst r.
  split; [reflexivity|].
  exact (TrackInformation_Read_data_at_0x100 SectorInformation_Read
           SectorInformation_DataRead zero_TrackInformation t'
           (sample_track x02 (2 + 16 + 216 + 256)) out tt SectorInformation_Read_8 E).
Defined.

(** ** X6: a track with no sectors *)

(** X6.  A track whose header declares no sectors, read into a receiver
    with no descriptors, takes the 24-byte header and the 232 padding bytes
    up to offset 0x100 and nothing more: it succeeds with the header fields
    assigned, never calls the descriptor or payload reader, and leaves
    [Sectors] and [Data] as they were. *)
Theorem TrackInformation_Read_no_sectors (secRead : Reader SectorInformation)
    (dataRead : SectorInformation -> Reader (list byte)) (t : TrackInformation)
    (hdr pad rest : list byte) :
  length hdr = 24%nat -> nth 21 hdr x00 = x00 -> Sectors t = [] -> length pad = 232%nat ->
  TrackInformation_Read secRead dataRead t (hdr ++ pad ++ rest)
  = (Ok tt, header_fields hdr t, rest).
Proof.
  intros Hl Hsc Hs Hp. rewrite TrackInformation_Read_header by exact Hl.
  assert (Hc : SectorsCount (header_fields hdr t) = x00) by exact Hsc.
  unfold TrackInformation_afterHeader, mbind at 1, readSectorInformationBlocks.
  rewrite Hc. cbn [Byte.to_nat readSectorInformationBlocks_loop mret].
  unfold mbind, read.
  rewrite setBufferToDataAddress_pad by (rewrite Hc, Hp; reflexivity).
  unfold readSectorData. rewrite (proj1 (header_fields_fields hdr t)), Hs.
  reflexivity.
Qed.

Lemma TrackInformation_Read_no_sectors_witness :
  length (repeat x00 24) = 24%nat /\ nth 21 (repeat x00 24) x00 = x00 /\
  Sectors zero_TrackInformation = [] /\ length (repeat x00 232) = 232%nat /\
  TrackInformation_Read SectorInformation_Read SectorInformation_DataRead zero_TrackInformation
    (repeat x00 24 ++ repeat x00 232 ++ [x2a])
  = (Ok tt, header_fields (repeat x00 24) zero_TrackInformation, [x2a]).
Proof.
  do 4 (split; [reflexivity|]).
  apply (TrackInformation_Read_no_sectors SectorInformation_Read SectorInformation_DataRead
           zero_TrackInformation (repeat x00 24) (repeat x00 232) [x2a]); reflexivity.
Defined.

(** ** String lemmas *)

Lemma string_append_nil (s : string) : (s ++ "")%string = s.
Proof. induction s as [|ch s IH]; cbn; [reflexivity | now rewrite IH]. Qed.

Lemma string_append_assoc (s1 s2 s3 : string) :
  (s1 ++ s2 ++ s3)%string = ((s1 ++ s2) ++ s3)%string.
Proof. induction s1 as [|ch s1 IH]; cbn; [reflexivity | now rewrite IH]. Qed.

Lemma string_length_append (s1 s2 : string) :
  String.length (s1 ++ s2) = (String.length s1 + String.length s2)%nat.
Proof. induction s1 as [|ch s1 IH]; cbn; [reflexivity | now rewrite IH]. Qed.

Lemma substring_skip (s1 s2 : string) (k m : nat) :
  substring (String.length s1 + k) m (s1 ++ s2) = substring k m s2.
Proof. induction s1 as [|ch s1 IH]; cbn; [reflexivity | exact IH]. Qed.

Lemma substring_whole (s : string) : substring 0 (String.length s) s = s.
Proof. induction s as [|ch s IH]; cbn; [reflexivity | now rewrite IH]. Qed.

Lemma substring_prefix (s1 s2 : string) : substring 0 (String.length s1) (s1 ++ s2) = s1.
Proof. induction s1 as [|ch s1 IH]; cbn; [now destruct s2 | now rewrite IH]. Qed.

Lemma count_newlines_append (s1 s2 : string) :
  count_newlines (s1 ++ s2) = (count_newlines s1 + count_newlines s2)%nat.
Proof. induction s1 as [|ch s1 IH]; cbn; [reflexivity | rewrite IH; lia]. Qed.

Lemma decimal_digits_no_newline (d : Decimal.uint) :
  count_newlines (DecimalString.NilEmpty.string_of_uint d) = 0%nat.
Proof. induction d; cbn; auto. Qed.

Lemma format_d_no_newline (w : Z) : count_newlines (format_d w) = 0%nat.
Proof.
  unfold format_d. destruct (N.to_uint (Z.to_N w)) as [| d | d | d | d | d | d | d | d | d | d];
    first [reflexivity | exact (decimal_digits_no_newline _)].
Qed.

Lemma format_s_length (bs : list byte) : String.length (format_s bs) = length bs.
Proof. induction bs as [|b bs IH]; cbn; [reflexivity | exact (f_equal S IH)]. Qed.

Lemma CallSequence_ToString_fold (bs : list Z) (acc : string) :
  exists body,
    fold_left (fun str b => (str ++ " - " ++ format_d b ++ newline)%string) bs acc
    = (acc ++ body)%string /\
    count_newlines body = length bs.
Proof.
  revert acc. induction bs as [|b bs IH]; intros acc; cbn [fold_left].
  - exists ""%string. now rewrite string_append_nil.
  - destruct (IH (acc ++ " - " ++ format_d b ++ newline)%string) as [body [-> Hc]].
    exists (" - " ++ format_d b ++ newline ++ body)%string.
    rewrite !string_append_assoc. split; [reflexivity|].
    rewrite !count_newlines_append, format_d_no_newline, Hc. cbn. reflexivity.
Qed.

(** ** X7: the text form of a CallSequence *)

(** X7.  [CallSequence.ToString] starts with the line ["Call Sequence"]
    and is followed by one newline-terminated line per offset: the text
    has exactly [1 + len(Blocks)] newlines (the decimal offsets contain
    none). *)
Theorem CallSequence_ToString_lines (c : CallSequence) :
  exists body,
    CallSequence_ToString c = (CallSequence_Name ++ newline ++ body)%string /\
    count_newlines body = length (Blocks c) /\
    count_newlines (CallSequence_ToString c) = S (length (Blocks c)).
Proof.
  unfold CallSequence_ToString.
  destruct (CallSequence_ToString_fold (Blocks c) (CallSequence_Name ++ newline)%string)
    as [body [-> Hc]].
  exists body. rewrite <- string_append_assoc. split; [reflexivity|]. split; [exact Hc|].
  rewrite !count_newlines_append, Hc. reflexivity.
Qed.

(** ** X8: the columns of the CustomInfo text form *)

(** X8.  For a custom info block (10 identification bytes),
    [CustomInfo.ToString] is [37 + len(Info)] characters long: the
    identification is the 10 characters from column 24 and the info the
    last [len(Info)] characters, from column 37. *)
Theorem CustomInfo_ToString_columns (c : CustomInfo) :
  length (Identification c) = 10%nat ->
  String.length (CustomInfo_ToString c) = (37 + length (Info c))%nat /\
  substring 24 10 (CustomInfo_ToString c) = format_s (Identification c) /\
  substring 37 (length (Info c)) (CustomInfo_ToString c) = format_s (Info c).
Proof.
  intros Hl. unfold CustomInfo_ToString.
  pose proof (format_s_length (Identification c)) as Hx.
  pose proof (format_s_length (Info c)) as Hy.
  set (x := format_s (Identification c)) in *. set (y := format_s (Info c)) in *.
  clearbody x y. rewrite Hl in Hx. rewrite <- Hy.
  set (P := ("> " ++ pad_right 19 CustomInfo_Name ++ " : ")%string).
  assert (HP : String.length P = 24%nat) by reflexivity.
  replace ("> " ++ pad_right 19 CustomInfo_Name ++ " : " ++ x ++ " - " ++ y)%string
    with (P ++ x ++ " - " ++ y)%string by (subst P; rewrite !string_append_assoc; reflexivity).
  clearbody P. split; [|split].
  - rewrite !string_length_append, HP, Hx. reflexivity.
  - replace 24%nat with (String.length P + 0)%nat by (rewrite HP; reflexivity).
    rewrite substring_skip, <- Hx. apply substring_prefix.
  - replace 37%nat with (String.length P + (String.length x + 3))%nat
      by (rewrite HP, Hx; reflexivity).
    rewrite !substring_skip. cbn [substring append]. apply substring_whole.
Qed.

Lemma CustomInfo_ToString_columns_witness :
  length (Identification (mkCustomInfo (list_byte_of_string "TZXIT-DEMO") 2 [x41; x42]))
    = 10%nat /\
  String.length (CustomInfo_ToString (mkCustomInfo (list_byte_of_string "TZXIT-DEMO") 2 [x41; x42]))
    = (37 + length (Info (mkCustomInfo (list_byte_of_string "TZXIT-DEMO") 2 [x41; x42])))%nat /\
  substring 24 10 (CustomInfo_ToString (mkCustomInfo (list_byte_of_string "TZXIT-DEMO") 2 [x41; x42]))
    = format_s (Identification (mkCustomInfo (list_byte_of_string "TZXIT-DEMO") 2 [x41; x42])) /\
  substring 37 (length (Info (mkCustomInfo (list_byte_of_string "TZXIT-DEMO") 2 [x41; x42])))
    (CustomInfo_ToString (mkCustomInfo (list_byte_of_string "TZXIT-DEMO") 2 [x41; x42]))
    = format_s (Info (mkCustomInfo (list_byte_of_string "TZXIT-DEMO") 2 [x41; x42])).
Proof.
  split; [reflexivity|].
  apply (CustomInfo_ToString_columns (mkCustomInfo (list_byte_of_string "TZXIT-DEMO") 2 [x41; x42])).
  reflexivity.
Defined.

(** ** X9: reading then printing a CallSequence *)

Lemma CallSequence_ToString_count (c : CallSequence) :
  count_newlines (CallSequence_ToString c) = S (length (Blocks c)).
Proof.
  unfold CallSequence_ToString.
  destruct (CallSequence_ToString_fold (Blocks c) (CallSequence_Name ++ newline)%string)
    as [body [-> Hc]].
  rewrite !count_newlines_append, Hc. reflexivity.
Qed.

(** X9.  After a successful [CallSequence.Read], [ToString] prints one
    line for the name, one per offset the receiver already held and one
    per offset read: [1 + len(old Blocks) + Count] lines. *)
Theorem CallSequence_Read_ToString_lines (c c' : CallSequence) (inp rest : list byte) :
  CallSequence_Read c inp = (Ok c', rest) ->
  count_newlines (CallSequence_ToString c') = (1 + length (Blocks c) + Z.to_nat (Count c'))%nat.
Proof.
  unfold CallSequence_Read, rbind at 1.
  destruct (ReadShort inp) as [[n|e] r] eqn:E; [|discriminate].
  cbn [Count Blocks]. intros H.
  apply CallSequence_readBlocks_split in H as [body [Hl [_ ->]]].
  rewrite CallSequence_ToString_count. cbn [Blocks Count].
  rewrite length_app, length_map, Hl. lia.
Qed.

Lemma CallSequence_Read_ToString_lines_witness :
  CallSequence_Read (mkCallSequence 0 [9]) [x02; x00; x05; x00; xff; xff]
    = (Ok (mkCallSequence 2 [9; 5; 65535]), []) /\
  count_newlines (CallSequence_ToString (mkCallSequence 2 [9; 5; 65535]))
  = (1 + length (Blocks (mkCallSequence 0 [9%Z]))
     + Z.to_nat (Count (mkCallSequence 2 [9%Z; 5%Z; 65535%Z])))%nat.
Proof.
  split; [reflexivity|].
  apply (CallSequence_Read_ToString_lines (mkCallSequence 0 [9]) (mkCallSequence 2 [9; 5; 65535])
           [x02; x00; x05; x00; xff; xff] []).
  reflexivity.
Defined.

(** ** X10: reading then printing a CustomInfo *)

Lemma format_s_app (a b : list byte) : format_s (a ++ b) = (format_s a ++ format_s b)%string.
Proof. induction a as [|x a IH]; cbn; [reflexivity | exact (f_equal _ IH)]. Qed.

Lemma CustomInfo_ToString_split (c : CustomInfo) :
  exists P, String.length P = 24%nat /\
    CustomInfo_ToString c
    = (P ++ format_s (Identification c) ++ " - " ++ format_s (Info c))%string.
Proof.
  exists ("> " ++ pad_right 19 CustomInfo_Name ++ " : ")%string. split; [reflexivity|].
  unfold CustomInfo_ToString. now rewrite !string_append_assoc.
Qed.

(** X10.  After a successful [CustomInfo.Read], [ToString] shows the first
    10 bytes of the input as the identification (from column 24), and ends
    with the info bytes the receiver held (from column 37) followed by the
    [Length] info bytes read, which are the input bytes from offset 14 on. *)
Theorem CustomInfo_Read_ToString (c c' : CustomInfo) (inp rest : list byte) :
  CustomInfo_Read c inp = (Ok c', rest) ->
  String.length (CustomInfo_ToString c')
    = (37 + length (Info c) + Z.to_nat (Length c'))%nat /\
  substring 24 10 (CustomInfo_ToString c') = format_s (firstn 10 inp) /\
  substring 37 (length (Info c)) (CustomInfo_ToString c') = format_s (Info c) /\
  substring (37 + length (Info c)) (Z.to_nat (Length c')) (CustomInfo_ToString c')
    = format_s (firstn (Z.to_nat (Length c')) (skipn 14 inp)).
Proof.
  intros H. apply CustomInfo_Read_ok in H
    as (ident & lb & info & -> & Hi & Hlb & _ & Hinfo & ->).
  destruct (CustomInfo_ToString_split (mkCustomInfo ident (le_uint lb) (Info c ++ info)))
    as [P [HP ->]].
  cbn [Identification Info Length]. rewrite format_s_app.
  assert (Hf : firstn 10 (ident ++ lb ++ info ++ rest) = ident)
    by (rewrite <- Hi, firstn_app, Nat.sub_diag, firstn_O, firstn_all, app_nil_r; reflexivity).
  assert (Hs : skipn 14 (ident ++ lb ++ info ++ rest) = info ++ rest).
  { rewrite app_assoc. replace 14%nat with (length (ident ++ lb)) by (rewrite length_app; lia).
    now rewrite skipn_app, skipn_all, Nat.sub_diag, skipn_O. }
  rewrite Hf, Hs, <- Hinfo, firstn_app, Nat.sub_diag, firstn_O, firstn_all, app_nil_r.
  pose proof (format_s_length ident) as Hx. pose proof (format_s_length (Info c)) as Hy.
  pose proof (format_s_length info) as Hz.
  set (x := format_s ident) in *. set (y := format_s (Info c)) in *.
  set (z := format_s info) in *. clearbody x y z.
  rewrite <- Hy, <- Hz. split; [|split; [|split]].
  - rewrite !string_length_append, HP, Hx, Hi, Hy, Hz. cbn [String.length]. lia.
  - replace 24%nat with (String.length P + 0)%nat by (rewrite HP; reflexivity).
    rewrite substring_skip, <- Hi, <- Hx. apply substring_prefix.
  - replace 37%nat
      with (String.length P + (String.length x + (String.length " - " + 0)))%nat
      by (rewrite HP, Hx, Hi; cbn [String.length]; lia).
    rewrite !substring_skip. apply substring_prefix.
  - replace (37 + String.length y)%nat
      with (String.length P + (String.length x
              + (String.length " - " + (String.length y + 0))))%nat
      by (rewrite HP, Hx, Hi; cbn [String.length]; lia).
    rewrite !substring_skip. apply substring_whole.
Qed.

Lemma CustomInfo_Read_ToString_witness :
  CustomInfo_Read (mkCustomInfo (repeat x00 10) 0 [x55])
    (repeat x41 10 ++ [x02; x00; x00; x00; x07; x08; x09])
    = (Ok (mkCustomInfo (repeat x41 10) 2 [x55; x07; x08]), [x09]) /\
  String.length (CustomInfo_ToString (mkCustomInfo (repeat x41 10) 2 [x55; x07; x08]))
    = (37 + length (Info (mkCustomInfo (repeat x00 10) 0 [x55]))
       + Z.to_nat (Length (mkCustomInfo (repeat x41 10) 2 [x55; x07; x08])))%nat /\
  substring 24 10 (CustomInfo_ToString (mkCustomInfo (repeat x41 10) 2 [x55; x07; x08]))
    = format_s (firstn 10 (repeat x41 10 ++ [x02; x00; x00; x00; x07; x08; x09])) /\
  substring 37 (length (Info (mkCustomInfo (repeat x00 10) 0 [x55])))
    (CustomInfo_ToString (mkCustomInfo (repeat x41 10) 2 [x55; x07; x08]))
    = format_s (Info (mkCustomInfo (repeat x00 10) 0 [x55])) /\
  substring (37 + length (Info (mkCustomInfo (repeat x00 10) 0 [x55])))
    (Z.to_nat (Length (mkCustomInfo (repeat x41 10) 2 [x55; x07; x08])))
    (CustomInfo_ToString (mkCustomInfo (repeat x41 10) 2 [x55; x07; x08]))
  = format_s (firstn (Z.to_nat (Length (mkCustomInfo (repeat x41 10) 2 [x55; x07; x08])))
                (skipn 14 (repeat x41 10 ++ [x02; x00; x00; x00; x07; x08; x09]))).
Proof.
  split; [reflexivity|].
  apply (CustomInfo_Read_ToString (mkCustomInfo (repeat x00 10) 0 [x55])
           (mkCustomInfo (repeat x41 10) 2 [x55; x07; x08])
           (repeat x41 10 ++ [x02; x00; x00; x00; x07; x08; x09]) [x09]).
  reflexivity.
Defined.
